(** * AiDot switch platform: classifier, reconciler and entity adapter

    A shallow embedding of [custom_components/aidot/switch.py].  Python
    dictionaries are finite maps, Python sets are finite sets, and the
    mutable closure variable [lists_added] together with the host entity
    registry is threaded through the reconciliation pass explicitly. *)

From Stdlib Require Import Ascii NArith Lia.
From Stdlib Require String.
From stdpp Require Import base option list gmap sets strings.

(** ** Python string operations used by the module

    Type strings and model identifiers are modelled as sequences of
    one-byte characters; [lower] folds the letters [A]..[Z] and leaves
    every other character as it is. *)

Module PyStr.

Definition code (c : ascii) : N := N_of_ascii c.

Definition is_upper (c : ascii) : bool :=
  (65 <=? code c)%N && (code c <=? 90)%N.

Definition lower_char (c : ascii) : ascii :=
  if is_upper c then ascii_of_N (code c + 32) else c.

(** [s.lower()] *)
Fixpoint lower (s : string) : string :=
  match s with
  | EmptyString => EmptyString
  | String c s' => String (lower_char c) (lower s')
  end.

(** [s.startswith(p)] *)
Fixpoint startswith (p s : string) : bool :=
  match p, s with
  | EmptyString, _ => true
  | String _ _, EmptyString => false
  | String a p', String b s' =>
      if decide (a = b) then startswith p' s' else false
  end.

(** [p in s] on strings: [p] occurs as a contiguous substring of [s]. *)
Fixpoint contains (p s : string) : bool :=
  startswith p s ||
  match s with
  | EmptyString => false
  | String _ s' => contains p s'
  end.

(** [s.split(sep)] for a one-character separator.  The result always
    has a first element. *)
Fixpoint split (sep : ascii) (s : string) : list string :=
  match s with
  | EmptyString => [EmptyString]
  | String c s' =>
      if decide (c = sep) then EmptyString :: split sep s'
      else match split sep s' with
           | [] => [String c EmptyString]
           | h :: t => String c h :: t
           end
  end.

(** [s[n:]] for a non-negative [n]; past the end it is the empty string. *)
Fixpoint slice_from (n : nat) (s : string) : string :=
  match n, s with
  | O, _ => s
  | S _, EmptyString => EmptyString
  | S n', String _ s' => slice_from n' s'
  end.

(** Membership of a character in a string. *)
Fixpoint has_char (c : ascii) (s : string) : Prop :=
  match s with
  | EmptyString => False
  | String a s' => a = c ∨ has_char c s'
  end.

(** Two characters are the same letter up to ASCII case. *)
Definition same_letter (a b : ascii) : Prop :=
  a = b
  ∨ (is_upper a = true ∧ code b = (code a + 32)%N)
  ∨ (is_upper b = true ∧ code a = (code b + 32)%N).

(** Two strings have the same length and agree letter by letter up to
    case. *)
Fixpoint same_ci (s t : string) : Prop :=
  match s, t with
  | EmptyString, EmptyString => True
  | String a s', String b t' => same_letter a b ∧ same_ci s' t'
  | _, _ => False
  end.

(** [s] contains [p] case-insensitively: some contiguous window of [s]
    agrees with [p] up to case. *)
Definition contains_ci (s p : string) : Prop :=
  ∃ pre mid post, s = pre +:+ mid +:+ post ∧ same_ci mid p.

End PyStr.

(** ** Collaborator objects *)

(** The device client's [info] object. *)
Module Info.
Record t := {
  dev_id : string;
  model_id : string;
  mac : string;
  name : string;
  hw_version : string
}.
End Info.

Record DeviceClient := {
  device_id : string;
  info : Info.t
}.

(** The coordinator's [data] object. *)
Record DeviceStatus := {
  online : bool;
  on : bool
}.

(** A device coordinator.  [last_update_success] is kept by the host's
    [DataUpdateCoordinator], which the class extends. *)
Record AidotDeviceUpdateCoordinator := {
  device_client : DeviceClient;
  data : DeviceStatus;
  last_update_success : bool
}.

(** The coordinator registry held in [entry.runtime_data]. *)
Record AidotCoordinator := {
  device_coordinators : gmap string AidotDeviceUpdateCoordinator;
  device_types : gmap string string
}.

Inductive exn :=
| KeyError (key : string)
| ClientError (msg : string).

(** ** The classifier *)

Definition _is_switch_device (coordinator : AidotCoordinator)
    (device_id : string) : bool :=
  let device_type := default "" (device_types coordinator !! device_id) in
  let is_plug := PyStr.contains "plug" (PyStr.lower device_type) in
  let is_switch := PyStr.contains "switch" (PyStr.lower device_type) in
  let is_light :=
    PyStr.contains "light" (PyStr.lower device_type)
    || PyStr.contains "bulb" (PyStr.lower device_type) in
  (is_plug || is_switch) && negb is_light.

(** ** Suspending procedures

    An [async def] body runs on the entity until it awaits the device
    client; the event loop then holds the state, other callbacks may
    change it, and the body resumes on the outcome of the call. *)

Inductive ClientCall := ClientTurnOn | ClientTurnOff.

Inductive Outcome := Completed | Failed (e : exn).

Inductive Step (S A : Type) :=
| Done (s : S) (r : exn + A)
| Suspended (s : S) (call : ClientCall) (resume : Outcome → S → Step S A).

Arguments Done {S A} s r.
Arguments Suspended {S A} s call resume.

Definition Proc (S A : Type) : Type := S → Step S A.

Fixpoint step_bind {S A B} (x : Step S A) (f : A → Proc S B) : Step S B :=
  match x with
  | Done s (inr a) => f a s
  | Done s (inl e) => Done s (inl e)
  | Suspended s call resume =>
      Suspended s call (λ o s', step_bind (resume o s') f)
  end.

Definition proc_ret {S A} (a : A) : Proc S A := λ s, Done s (inr a).

Definition proc_bind {S A B} (m : Proc S A) (f : A → Proc S B) : Proc S B :=
  λ s, step_bind (m s) f.

(** [obj.attr = v] *)
Definition assign {S} (f : S → S) : Proc S unit := λ s, Done (f s) (inr tt).

(** [await client.call()]: a failure of the call is raised at the await. *)
Definition await {S} (call : ClientCall) : Proc S unit :=
  λ s, Suspended s call (λ o s',
    match o with
    | Completed => Done s' (inr tt)
    | Failed e => Done s' (inl e)
    end).

Notation "m1 ;;; m2" := (proc_bind m1 (λ _, m2))
  (at level 100, m2 at level 200, right associativity).

(** Run a procedure to its end against a device client, with no other
    callback scheduled while it is suspended. *)
Fixpoint run_step {S A} (client : ClientCall → Outcome) (x : Step S A)
    : S * (exn + A) :=
  match x with
  | Done s r => (s, r)
  | Suspended s call resume => run_step client (resume (client call) s)
  end.

Definition run {S A} (client : ClientCall → Outcome) (m : Proc S A) (s : S)
    : S * (exn + A) :=
  run_step client (m s).

(** The calls issued to the device client, in order. *)
Fixpoint calls_of {S A} (client : ClientCall → Outcome) (x : Step S A)
    : list ClientCall :=
  match x with
  | Done _ _ => []
  | Suspended s call resume =>
      call :: calls_of client (resume (client call) s)
  end.

(** ** The host platform *)

(** The host's [DeviceInfo] dictionary. *)
Record DeviceInfo := {
  identifiers : gset (string * string);
  connections : gset (string * string);
  manufacturer : string;
  model : string;
  name : string;
  hw_version : string
}.

(** An entry of the host entity registry; the registry maps entity ids
    to entries. *)
Record RegistryEntry := {
  domain : string;
  platform : string;
  unique_id : string
}.

Global Instance RegistryEntry_eq_dec : EqDecision RegistryEntry.
Proof. solve_decision. Defined.

(** The key [(domain, platform, unique_id)] under which an entity is
    looked up. *)
Definition entry_of (domain platform unique_id : string) : RegistryEntry :=
  {| domain := domain; platform := platform; unique_id := unique_id |}.

Record HomeAssistant := {
  entity_registry : gmap string RegistryEntry
}.

(** [er.async_get(hass)] *)
Definition er_async_get (hass : HomeAssistant) : gmap string RegistryEntry :=
  entity_registry hass.

(** [entity_registry.async_get_entity_id(domain, platform, unique_id)]:
    the id of an entity registered under that key, if there is one. *)
Definition async_get_entity_id (registry : gmap string RegistryEntry)
    (domain platform unique_id : string) : option string :=
  (λ found, found.2.1) <$>
    list_find (λ item, item.2 = entry_of domain platform unique_id)
              (map_to_list registry).

(** [entity_registry.async_remove(entity_id)] *)
Definition async_remove (hass : HomeAssistant) (entity_id : string)
    : HomeAssistant :=
  {| entity_registry := delete entity_id (entity_registry hass) |}.

(** What the entity hands to the host state machine. *)
Inductive HostCall :=
| WriteHaState (available : bool) (is_on : option bool).

(** Python truth value of a string. *)
Definition truthy (s : string) : bool :=
  match s with
  | EmptyString => false
  | String _ _ => true
  end.

Section Platform.

(** [DOMAIN] comes from [.const]; [CONNECTION_NETWORK_MAC] and
    [format_mac] come from the host's device registry helpers. *)
Variable DOMAIN : string.
Variable CONNECTION_NETWORK_MAC : string.
Variable format_mac : string → string.

(** ** The entity adapter *)

Record AidotSwitch := {
  coordinator : AidotDeviceUpdateCoordinator;
  _attr_unique_id : string;
  _attr_device_info : option DeviceInfo;
  _attr_available : bool;
  _attr_is_on : option bool
}.

Definition set_attr_available (v : bool) (self : AidotSwitch) : AidotSwitch :=
  {| coordinator := coordinator self;
     _attr_unique_id := _attr_unique_id self;
     _attr_device_info := _attr_device_info self;
     _attr_available := v;
     _attr_is_on := _attr_is_on self |}.

Definition set_attr_is_on (v : bool) (self : AidotSwitch) : AidotSwitch :=
  {| coordinator := coordinator self;
     _attr_unique_id := _attr_unique_id self;
     _attr_device_info := _attr_device_info self;
     _attr_available := _attr_available self;
     _attr_is_on := Some v |}.

Definition set_attr_device_info (v : DeviceInfo) (self : AidotSwitch)
    : AidotSwitch :=
  {| coordinator := coordinator self;
     _attr_unique_id := _attr_unique_id self;
     _attr_device_info := Some v;
     _attr_available := _attr_available self;
     _attr_is_on := _attr_is_on self |}.

(** [self.coordinator.data.on = v] *)
Definition set_data_on (v : bool) (self : AidotSwitch) : AidotSwitch :=
  {| coordinator :=
       {| device_client := device_client (coordinator self);
          data := {| online := online (data (coordinator self)); on := v |};
          last_update_success := last_update_success (coordinator self) |};
     _attr_unique_id := _attr_unique_id self;
     _attr_device_info := _attr_device_info self;
     _attr_available := _attr_available self;
     _attr_is_on := _attr_is_on self |}.

Definition _update_status (self : AidotSwitch) : AidotSwitch :=
  let self := set_attr_available (online (data (coordinator self))) self in
  set_attr_is_on (on (data (coordinator self))) self.

(** [self.available] as the host reads it.  [CoordinatorEntity] comes
    first among the bases of [AidotSwitch] and the class does not
    override the property, so it is the host's
    [CoordinatorEntity.available], which returns the coordinator's
    [last_update_success] and does not read [_attr_available]. *)
Definition available (self : AidotSwitch) : bool :=
  last_update_success (coordinator self).

(** [self.is_on] as the host reads it: [ToggleEntity.is_on] returns
    [_attr_is_on]. *)
Definition is_on (self : AidotSwitch) : option bool :=
  _attr_is_on self.

(** [self.async_write_ha_state()]: the host writes the state it reads
    from the entity's properties. *)
Definition async_write_ha_state (self : AidotSwitch) : HostCall :=
  WriteHaState (available self) (is_on self).

(** [CoordinatorEntity._handle_coordinator_update] of the host: it
    writes the entity's state. *)
Definition super_handle_coordinator_update (self : AidotSwitch)
    : list HostCall :=
  [async_write_ha_state self].

Definition _device_status_callback (self : AidotSwitch)
    (status : DeviceStatus) : AidotSwitch * list HostCall :=
  let self := _update_status self in
  (self, [async_write_ha_state self]).

Definition _handle_coordinator_update (self : AidotSwitch)
    : AidotSwitch * list HostCall :=
  let self := _update_status self in
  (self, super_handle_coordinator_update self).

(** [AidotSwitch.__init__]; the class attributes start at the host's
    defaults ([available] true, [is_on] unset). *)
Definition AidotSwitch__init__ (hass : HomeAssistant)
    (coordinator : AidotDeviceUpdateCoordinator) : AidotSwitch :=
  let self :=
    {| coordinator := coordinator;
       _attr_unique_id := Info.dev_id (info (device_client coordinator));
       _attr_device_info := None;
       _attr_available := true;
       _attr_is_on := None |} in
  let model_id := Info.model_id (info (device_client coordinator)) in
  let manufacturer := hd EmptyString (PyStr.split "." model_id) in
  let model := PyStr.slice_from (String.length manufacturer + 1) model_id in
  let mac := format_mac (Info.mac (info (device_client coordinator))) in
  let self :=
    set_attr_device_info
      {| identifiers := {[ (DOMAIN, _attr_unique_id self) ]};
         connections := {[ (CONNECTION_NETWORK_MAC, mac) ]};
         manufacturer := manufacturer;
         model := model;
         name := Info.name (info (device_client coordinator));
         hw_version := Info.hw_version (info (device_client coordinator)) |}
      self in
  _update_status self.

Definition async_turn_on : Proc AidotSwitch unit :=
  assign (set_data_on true) ;;;
  assign (set_attr_is_on true) ;;;
  await ClientTurnOn.

Definition async_turn_off : Proc AidotSwitch unit :=
  assign (set_data_on false) ;;;
  assign (set_attr_is_on false) ;;;
  await ClientTurnOff.

(** ** The reconciler *)

(** What a pass asks of the host. *)
Inductive Effect :=
| AddEntities (entities : exn + list AidotSwitch)
| RegistryRemove (entity_id : string).

(** The state closed over by [add_entities]. *)
Record Setup := {
  hass : HomeAssistant;
  lists_added : gset string
}.

(** [d[key]] *)
Definition getitem {V} (d : gmap string V) (key : string) : exn + V :=
  match d !! key with
  | Some v => inr v
  | None => inl (KeyError key)
  end.

(** The generator handed to [async_add_entities], consumed by the host
    from left to right. *)
Fixpoint entity_generator (hass : HomeAssistant)
    (coordinator : AidotCoordinator) (ids : list string)
    : exn + list AidotSwitch :=
  match ids with
  | [] => inr []
  | device_id :: rest =>
      match getitem (device_coordinators coordinator) device_id with
      | inl e => inl e
      | inr device_coordinator =>
          match entity_generator hass coordinator rest with
          | inl e => inl e
          | inr entities =>
              inr (AidotSwitch__init__ hass device_coordinator :: entities)
          end
      end
  end.

(** The set comprehension that opens [add_entities]. *)
Definition new_lists (coordinator : AidotCoordinator) : gset string :=
  list_to_set
    ((λ device_coordinator, device_id (device_client device_coordinator)) <$>
     filter
       (λ device_coordinator,
          _is_switch_device coordinator
            (device_id (device_client device_coordinator)) = true)
       (map_to_list (device_coordinators coordinator)).*2).

(** The loop of the removal branch. *)
Fixpoint remove_entities (hass : HomeAssistant) (ids : list string)
    : HomeAssistant * list Effect :=
  match ids with
  | [] => (hass, [])
  | device_id :: rest =>
      let entity_registry := er_async_get hass in
      match async_get_entity_id entity_registry "switch" DOMAIN device_id with
      | Some entity =>
          if truthy entity then
            let '(hass', effects) :=
              remove_entities (async_remove hass entity) rest in
            (hass', RegistryRemove entity :: effects)
          else remove_entities hass rest
      | None => remove_entities hass rest
      end
  end.

(** One reconciliation pass. *)
Definition add_entities (coordinator : AidotCoordinator) (st : Setup)
    : Setup * list Effect :=
  let new_lists := new_lists coordinator in
  if decide (new_lists ∖ lists_added st ≠ ∅) then
    ({| hass := hass st; lists_added := lists_added st ∪ new_lists |},
     [AddEntities (entity_generator (hass st) coordinator (elements new_lists))])
  else if decide (lists_added st ∖ new_lists ≠ ∅) then
    let removed_device_ids := lists_added st ∖ new_lists in
    let '(hass', effects) :=
      remove_entities (hass st) (elements removed_device_ids) in
    ({| hass := hass'; lists_added := lists_added st ∖ removed_device_ids |},
     effects)
  else (st, []).

(** [async_setup_entry]: the tracked set starts empty and one pass runs
    at once. *)
Definition async_setup_entry (hass0 : HomeAssistant)
    (coordinator : AidotCoordinator) : Setup * list Effect :=
  add_entities coordinator {| hass := hass0; lists_added := ∅ |}.

(** [coordinator.async_add_listener(add_entities)]: every later
    notification of the coordinator runs one pass.  A notification is
    described by what the host did to its registry since the previous
    pass and by the coordinator's contents when the listener is called. *)
Record Notification := {
  host_activity : HomeAssistant → HomeAssistant;
  snapshot : AidotCoordinator
}.

Fixpoint on_notifications (notifications : list Notification) (st : Setup)
    : Setup * list Effect :=
  match notifications with
  | [] => (st, [])
  | n :: rest =>
      let st1 :=
        {| hass := host_activity n (hass st);
           lists_added := lists_added st |} in
      let '(st2, effects) := add_entities (snapshot n) st1 in
      let '(st3, effects') := on_notifications rest st2 in
      (st3, effects ++ effects')
  end.

(** The platform's life: set up, then listen. *)
Definition platform_run (hass0 : HomeAssistant)
    (coordinator : AidotCoordinator) (notifications : list Notification)
    : Setup * list Effect :=
  let '(st, effects) := async_setup_entry hass0 coordinator in
  let '(st', effects') := on_notifications notifications st in
  (st', effects ++ effects').

End Platform.

(** ** Well-formedness of the collaborators' data *)

(** Every device coordinator is stored under its client's device id. *)
Definition keyed_by_device_id (coordinator : AidotCoordinator) : Prop :=
  map_Forall
    (λ key device_coordinator,
       device_id (device_client device_coordinator) = key)
    (device_coordinators coordinator).

(** No two entities of the registry share a key, and no entity id is the
    empty string. *)
Definition registry_indexed (hass : HomeAssistant) : Prop :=
  map_Forall
    (λ entity item,
       map_Forall (λ entity' item', item = item' → entity = entity')
                  (entity_registry hass))
    (entity_registry hass)
  ∧ entity_registry hass !! "" = None.

(** The device ids of the adapters a generator produced. *)
Definition adapter_ids (entities : list AidotSwitch) : list string :=
  (λ entity, device_id (device_client (coordinator entity))) <$> entities.

(** Which kind of request an effect is. *)
Definition is_removal (effect : Effect) : bool :=
  match effect with
  | RegistryRemove _ => true
  | AddEntities _ => false
  end.

(** Every device client reports the same id in [device_id] and in
    [info.dev_id]. *)
Definition client_ids_agree (coordinator : AidotCoordinator) : Prop :=
  map_Forall
    (λ _ device_coordinator,
       Info.dev_id (info (device_client device_coordinator))
       = device_id (device_client device_coordinator))
    (device_coordinators coordinator).


(** ** A small installation used in the examples below *)

Module Sample.

Definition device (id model_id : string) (is_on : bool)
    : AidotDeviceUpdateCoordinator :=
  {| device_client :=
       {| device_id := id;
          info := {| Info.dev_id := id; Info.model_id := model_id;
                     Info.mac := "AA:BB:CC:00:11:22"; Info.name := id;
                     Info.hw_version := "1.0" |} |};
     data := {| online := true; on := is_on |};
     last_update_success := true |}.

(** Two switch-like devices and one light. *)
Definition registry : AidotCoordinator :=
  {| device_coordinators :=
       <["a" := device "a" "aidot.plug.v1" false]>
         (<["b" := device "b" "aidot.wall" true]>
            (<["c" := device "c" "aidot.bulb.rgb" true]> ∅));
     device_types :=
       <["a" := "Smart Plug"]>
         (<["b" := "SWITCH"]> (<["c" := "RGB Light Strip"]> ∅)) |}.

(** The host registry knows the entity of ["a"], an entity of an earlier
    device ["z"], and the light entity of ["c"]. *)
Definition host : HomeAssistant :=
  {| entity_registry :=
       <["switch.a" := entry_of "switch" "aidot" "a"]>
         (<["switch.z" := entry_of "switch" "aidot" "z"]>
            (<["light.c" := entry_of "light" "aidot" "c"]> ∅)) |}.

Definition setup (tracked : gset string) : Setup :=
  {| hass := host; lists_added := tracked |}.

Definition pass : AidotCoordinator → Setup → Setup * list Effect :=
  add_entities "aidot" "mac" id.

(** A device client that rejects every command. *)
Definition unreachable (call : ClientCall) : Outcome :=
  Failed (ClientError "timeout").

End Sample.

(** ** Further situations used in the examples below *)

Module Scenario.

(** A device client that accepts every command. *)
Definition reachable (call : ClientCall) : Outcome := Completed.

(** The sample installation with the plug ["b"] filed under another
    key. *)
Definition misfiled : AidotCoordinator :=
  {| device_coordinators :=
       <["a" := Sample.device "a" "aidot.plug.v1" false]>
         (<["slot-2" := Sample.device "b" "aidot.wall" true]> ∅);
     device_types := device_types Sample.registry |}.

(** The sample installation after the plug ["a"] is gone. *)
Definition shrunk : AidotCoordinator :=
  {| device_coordinators :=
       <["b" := Sample.device "b" "aidot.wall" true]> ∅;
     device_types := device_types Sample.registry |}.

Definition notified (coordinator : AidotCoordinator) : Notification :=
  {| host_activity := id; snapshot := coordinator |}.

Definition adapter : AidotSwitch :=
  AidotSwitch__init__ "aidot" "mac" id Sample.host
    (Sample.device "a" "aidot.plug.v1" false).

(** The plug ["a"] as a successful poll reports it while it is
    unplugged: the poll went through, the device is offline. *)
Definition offline_device : AidotDeviceUpdateCoordinator :=
  {| device_client := device_client (Sample.device "a" "aidot.plug.v1" true);
     data := {| online := false; on := true |};
     last_update_success := true |}.

Definition offline_adapter : AidotSwitch :=
  AidotSwitch__init__ "aidot" "mac" id Sample.host offline_device.

End Scenario.

(** * Properties *)

(** ** Strings *)

Module PyStrFacts.
Import PyStr.

Lemma code_inj a b : code a = code b → a = b.
Proof.
  unfold code. intros H.
  rewrite <- (ascii_N_embedding a), <- (ascii_N_embedding b). by rewrite H.
Qed.

Lemma code_lt a : (code a < 256)%N.
Proof. apply N_ascii_bounded. Qed.

Lemma is_upper_range a :
  is_upper a = true ↔ (65 ≤ code a ∧ code a ≤ 90)%N.
Proof.
  unfold is_upper. rewrite andb_true_iff, !N.leb_le. tauto.
Qed.

Lemma code_lower_char a :
  code (lower_char a) = if is_upper a then (code a + 32)%N else code a.
Proof.
  unfold lower_char. destruct (is_upper a) eqn:Hup; [|done].
  apply is_upper_range in Hup. unfold code in *.
  apply N_ascii_embedding. lia.
Qed.

Lemma lower_char_same_letter a b :
  lower_char a = lower_char b ↔ same_letter a b.
Proof.
  unfold same_letter. split.
  - intros H. apply (f_equal code) in H. rewrite !code_lower_char in H.
    destruct (is_upper a) eqn:Ha, (is_upper b) eqn:Hb.
    + left. apply code_inj. lia.
    + right; left. split; [done|lia].
    + right; right. split; [done|lia].
    + left. by apply code_inj.
  - intros [-> | [[Ha Hab] | [Hb Hab]]]; [done| |];
      apply code_inj; rewrite !code_lower_char.
    + rewrite Ha. destruct (is_upper b) eqn:Hb; [|lia].
      apply is_upper_range in Ha, Hb. lia.
    + rewrite Hb. destruct (is_upper a) eqn:Ha; [|lia].
      apply is_upper_range in Ha, Hb. lia.
Qed.

Lemma lower_same_ci s t : lower s = lower t ↔ same_ci s t.
Proof.
  revert t. induction s as [|a s IH]; intros [|b t]; simpl; try done.
  rewrite <- IH, <- lower_char_same_letter. split.
  - by intros [= -> ->].
  - by intros [-> ->].
Qed.

Lemma app_String a s t : String a s +:+ t = String a (s +:+ t).
Proof. done. Qed.

Lemma app_empty_l s : "" +:+ s = s.
Proof. done. Qed.

Lemma lower_app s t : lower (s +:+ t) = lower s +:+ lower t.
Proof. induction s as [|a s IH]; [done|]. rewrite !app_String. simpl. by rewrite IH, app_String. Qed.

(** A split of [lower s] comes from a split of [s]. *)
Lemma lower_app_inv s x y :
  lower s = x +:+ y → ∃ s1 s2, s = s1 +:+ s2 ∧ lower s1 = x ∧ lower s2 = y.
Proof.
  revert s. induction x as [|a x IH]; intros s H.
  - exists "", s. by rewrite !app_empty_l in *.
  - destruct s as [|c s]; [done|]. rewrite app_String in H.
    simpl in H. injection H as Hc Hs.
    destruct (IH _ Hs) as (s1 & s2 & -> & <- & <-).
    exists (String c s1), s2. simpl. by rewrite Hc.
Qed.

Lemma startswith_spec p s :
  startswith p s = true ↔ ∃ t, s = p +:+ t.
Proof.
  revert s. induction p as [|a p IH]; intros s; simpl.
  - split; [|done]. intros _. by exists s.
  - destruct s as [|b s].
    + split; [done|]. by intros [t Ht].
    + case_decide as Hab.
      * subst b. rewrite IH. split.
        -- intros [t ->]. by exists t.
        -- intros [t Ht]. rewrite app_String in Ht.
           injection Ht as ->. by exists t.
      * split; [done|]. intros [t Ht]. rewrite app_String in Ht.
        injection Ht as Hb _. by destruct Hab.
Qed.

Lemma contains_spec p s :
  contains p s = true ↔ ∃ pre post, s = pre +:+ p +:+ post.
Proof.
  induction s as [|b s IH]; simpl.
  - rewrite orb_false_r, startswith_spec. split.
    + intros [t Ht]. by exists "", t.
    + intros (pre & post & H). destruct pre as [|c pre]; [|done].
      by exists post.
  - rewrite orb_true_iff, startswith_spec, IH. split.
    + intros [[t Ht] | (pre & post & ->)].
      * by exists "", t.
      * by exists (String b pre), post.
    + intros (pre & post & H). destruct pre as [|c pre].
      * left. by exists post.
      * right. rewrite app_String in H. injection H as _ ->.
        by exists pre, post.
Qed.

(** For a pattern already in lower case, searching the lowered string
    is case-insensitive containment. *)
Lemma contains_lower_ci p s :
  lower p = p → contains p (lower s) = true ↔ contains_ci s p.
Proof.
  intros Hp. rewrite contains_spec. unfold contains_ci. split.
  - intros (pre & post & H).
    apply lower_app_inv in H as (s1 & s2 & -> & _ & H).
    apply lower_app_inv in H as (mid & s3 & -> & Hmid & _).
    exists s1, mid, s3. split; [done|].
    apply lower_same_ci. by rewrite Hp.
  - intros (pre & mid & post & -> & Hci).
    apply lower_same_ci in Hci. rewrite Hp in Hci.
    exists (lower pre), (lower post). by rewrite !lower_app, Hci.
Qed.

Lemma split_nonempty sep s : split sep s ≠ [].
Proof.
  destruct s as [|c s]; simpl; [done|].
  case_decide; [done|]. by destruct (split sep s).
Qed.

Lemma split_head sep s :
  let m := hd "" (split sep s) in
  ¬ has_char sep m
  ∧ (has_char sep s → ∃ rest, s = m +:+ String sep rest)
  ∧ (¬ has_char sep s → m = s).
Proof.
  induction s as [|c s IH]; simpl.
  - split; [tauto|]. split; [tauto|done].
  - case_decide as Hc; simpl.
    + subst c. split; [tauto|]. split; [|tauto].
      intros _. by exists s.
    + destruct IH as (IH1 & IH2 & IH3).
      pose proof (split_nonempty sep s) as Hne.
      destruct (split sep s) as [|h t]; [done|]. simpl in *.
      split; [tauto|]. split.
      * intros [?|Hs]; [done|]. destruct (IH2 Hs) as [rest ->].
        by exists rest.
      * intros Hs. f_equal. apply IH3. tauto.
Qed.

Lemma slice_from_app m rest :
  slice_from (String.length m) (m +:+ rest) = rest.
Proof.
  induction m as [|a m IH]; simpl; [by destruct rest|done].
Qed.

Lemma slice_from_past s : slice_from (String.length s + 1) s = "".
Proof. induction s as [|a s IH]; simpl; done. Qed.

Lemma slice_from_after_sep m sep rest :
  slice_from (String.length m + 1) (m +:+ String sep rest) = rest.
Proof. induction m as [|a m IH]; simpl; done. Qed.

End PyStrFacts.

(** ** The classifier *)

Section Classifier.
Import PyStr.

(** C3: the classifier is true exactly when the device's type string
    (the empty string when the id has no entry in [device_types])
    contains "plug" or "switch" and contains neither "light" nor "bulb",
    all case-insensitively; an empty or missing type is not a switch. *)
Theorem is_switch_device_iff (coordinator : AidotCoordinator)
    (device_id : string) :
  let device_type := default "" (device_types coordinator !! device_id) in
  (_is_switch_device coordinator device_id = true ↔
     (contains_ci device_type "plug" ∨ contains_ci device_type "switch")
     ∧ ¬ (contains_ci device_type "light" ∨ contains_ci device_type "bulb"))
  ∧ (device_type = "" → _is_switch_device coordinator device_id = false).
Proof.
  intros device_type. split.
  - unfold _is_switch_device. fold device_type.
    rewrite andb_true_iff, negb_true_iff, orb_true_iff, orb_false_iff.
    rewrite <- !not_true_iff_false.
    rewrite !PyStrFacts.contains_lower_ci by done. tauto.
  - unfold _is_switch_device. fold device_type. by intros ->.
Qed.

End Classifier.

(** ** The entity adapter *)

Section Adapter.
Import PyStr.

Variable DOMAIN : string.
Variable CONNECTION_NETWORK_MAC : string.
Variable format_mac : string → string.

(** C9: the manufacturer is the part of the model identifier before its
    first dot and the model is what follows that dot; without a dot the
    manufacturer is the whole identifier and the model is empty. *)
Theorem init_manufacturer_model (hass : HomeAssistant)
    (coordinator : AidotDeviceUpdateCoordinator) :
  let model_id := Info.model_id (info (device_client coordinator)) in
  ∃ device_info,
    _attr_device_info
      (AidotSwitch__init__ DOMAIN CONNECTION_NETWORK_MAC format_mac
         hass coordinator) = Some device_info
    ∧ ¬ has_char "." (manufacturer device_info)
    ∧ (has_char "." model_id →
         model_id = manufacturer device_info +:+ "." +:+ model device_info)
    ∧ (¬ has_char "." model_id →
         manufacturer device_info = model_id ∧ model device_info = "").
Proof.
  intros model_id. eexists. split; [reflexivity|]. simpl. fold model_id.
  clearbody model_id.
  destruct (PyStrFacts.split_head "." model_id) as (Hno & Hdot & Hnodot).
  generalize dependent (hd "" (split "." model_id)).
  intros m Hno Hdot Hnodot. split; [done|]. split.
  - intros H. destruct (Hdot H) as [rest ->].
    by rewrite PyStrFacts.slice_from_after_sep.
  - intros H. rewrite (Hnodot H). split; [done|].
    apply PyStrFacts.slice_from_past.
Qed.

(** What the two refresh paths do: the push callback and the
    coordinator update both assign [online] to [_attr_available] and
    [on] to [_attr_is_on], leave the entity in the same state and make
    the same write; the on-state written is the one just assigned, but
    the availability written is the coordinator's [last_update_success],
    not the [_attr_available] just assigned. *)
Lemma update_paths_assign_and_write (self : AidotSwitch)
    (status : DeviceStatus) :
  let pushed := _device_status_callback self status in
  let polled := _handle_coordinator_update self in
  _attr_available pushed.1 = online (data (coordinator self))
  ∧ _attr_is_on pushed.1 = Some (on (data (coordinator self)))
  ∧ _attr_available polled.1 = online (data (coordinator self))
  ∧ _attr_is_on polled.1 = Some (on (data (coordinator self)))
  ∧ pushed = polled
  ∧ coordinator pushed.1 = coordinator self
  ∧ _attr_unique_id pushed.1 = _attr_unique_id self
  ∧ _attr_device_info pushed.1 = _attr_device_info self
  ∧ available pushed.1 = last_update_success (coordinator self)
  ∧ is_on pushed.1 = Some (on (data (coordinator self)))
  ∧ pushed.2 =
      [WriteHaState (last_update_success (coordinator self))
                    (Some (on (data (coordinator self))))].
Proof. repeat split. Qed.

(** C7 on a failing input: for a device that a successful poll reports
    offline, both refresh paths assign false to [_attr_available], yet
    the availability the host reads from the entity, and writes, is
    true; the on-state is mirrored as the claim says. *)
Lemma refresh_leaves_offline_device_available :
  let self := Scenario.offline_adapter in
  let polled := _handle_coordinator_update self in
  let pushed := _device_status_callback self (data (coordinator self)) in
  online (data (coordinator self)) = false
  ∧ last_update_success (coordinator self) = true
  ∧ _attr_available polled.1 = false
  ∧ available polled.1 = true
  ∧ polled.2 = [WriteHaState true (Some true)]
  ∧ _attr_available pushed.1 = false
  ∧ available pushed.1 = true
  ∧ pushed.2 = [WriteHaState true (Some true)].
Proof. by vm_compute. Qed.

(** C6: when [async_turn_on] suspends on the device client's turn-on
    call, the entity's on-state and the coordinator data's [on] flag are
    already true; that call is the first and only one made of the client;
    likewise with false for [async_turn_off]. *)
Theorem turn_assigns_before_await (self : AidotSwitch)
    (client : ClientCall → Outcome) :
  (∃ at_await resume,
      async_turn_on self = Suspended at_await ClientTurnOn resume
      ∧ at_await = set_attr_is_on true (set_data_on true self)
      ∧ _attr_is_on at_await = Some true
      ∧ on (data (coordinator at_await)) = true)
  ∧ calls_of client (async_turn_on self) = [ClientTurnOn]
  ∧ (∃ at_await resume,
      async_turn_off self = Suspended at_await ClientTurnOff resume
      ∧ at_await = set_attr_is_on false (set_data_on false self)
      ∧ _attr_is_on at_await = Some false
      ∧ on (data (coordinator at_await)) = false)
  ∧ calls_of client (async_turn_off self) = [ClientTurnOff].
Proof.
  split; [|split; [|split]].
  - do 2 eexists. split; [reflexivity|]. repeat split.
  - simpl. by destruct (client ClientTurnOn).
  - do 2 eexists. split; [reflexivity|]. repeat split.
  - simpl. by destruct (client ClientTurnOff).
Qed.

(** Once resumed on a failure, the method writes nothing more: it ends
    with the error in whatever state the entity then is. *)
Lemma turn_resume_on_failure (self later : AidotSwitch) (e : exn) :
  (∀ at_await resume,
     async_turn_on self = Suspended at_await ClientTurnOn resume →
     resume (Failed e) later = Done later (inl e))
  ∧ (∀ at_await resume,
     async_turn_off self = Suspended at_await ClientTurnOff resume →
     resume (Failed e) later = Done later (inl e)).
Proof.
  split; intros at_await resume Hstep; simpl in Hstep;
    by injection Hstep as _ <-.
Qed.

(** C8: when the awaited device-client command fails, the method ends
    with that error, and the on-state and the coordinator data's [on]
    flag keep the value assigned before the call. *)
Theorem turn_failure_keeps_optimistic_state (self : AidotSwitch)
    (client : ClientCall → Outcome) (e : exn) :
  (client ClientTurnOn = Failed e →
     let result := run client async_turn_on self in
     result.2 = inl e
     ∧ _attr_is_on result.1 = Some true
     ∧ on (data (coordinator result.1)) = true)
  ∧ (client ClientTurnOff = Failed e →
     let result := run client async_turn_off self in
     result.2 = inl e
     ∧ _attr_is_on result.1 = Some false
     ∧ on (data (coordinator result.1)) = false).
Proof.
  split; intros Hfail; unfold run; simpl; rewrite Hfail; simpl; done.
Qed.

End Adapter.

(** ** The host entity registry *)

Lemma async_get_entity_id_Some registry domain platform unique_id entity :
  async_get_entity_id registry domain platform unique_id = Some entity →
  registry !! entity = Some (entry_of domain platform unique_id).
Proof.
  unfold async_get_entity_id. intros Hfind.
  apply fmap_Some in Hfind as ([i [entity' item]] & Hfind & ->).
  apply list_find_Some in Hfind as (Hi & Hitem & _). simpl in *. subst item.
  apply elem_of_map_to_list. by eapply list_elem_of_lookup_2.
Qed.

Lemma async_get_entity_id_None registry domain platform unique_id :
  async_get_entity_id registry domain platform unique_id = None ↔
  ∀ entity, registry !! entity ≠ Some (entry_of domain platform unique_id).
Proof.
  unfold async_get_entity_id. rewrite fmap_None, list_find_None, Forall_forall.
  split.
  - intros Hall entity Hentity.
    apply elem_of_map_to_list in Hentity. by apply Hall in Hentity.
  - intros Hnone [entity item] Hin Hitem. simpl in Hitem. subst item.
    apply elem_of_map_to_list in Hin. by apply Hnone in Hin.
Qed.

(** ** Set differences as the pass tests them *)

Lemma difference_nonempty (X Y : gset string) : X ∖ Y ≠ ∅ ↔ X ⊈ Y.
Proof.
  split.
  - intros Hne Hsub. apply Hne, set_eq. intros x.
    rewrite elem_of_difference, elem_of_empty. split; [|done].
    intros [Hx Hy]. by apply Hy, Hsub.
  - intros Hns Hempty. apply Hns. intros x Hx.
    destruct (decide (x ∈ Y)) as [|Hy]; [done|].
    assert (Hin : x ∈ X ∖ Y) by (by apply elem_of_difference).
    rewrite Hempty in Hin. by apply elem_of_empty in Hin.
Qed.

Lemma difference_twice (X Y : gset string) : Y ⊆ X → X ∖ (X ∖ Y) = Y.
Proof.
  intros Hsub. apply set_eq. intros x. rewrite !elem_of_difference. split.
  - intros [Hx Hn]. destruct (decide (x ∈ Y)) as [|Hy]; [done|].
    destruct Hn. by split.
  - intros Hy. split; [by apply Hsub|]. by intros [_ Hn].
Qed.

Lemma subset_antisym_L (X Y : gset string) : X ⊆ Y → Y ⊆ X → X = Y.
Proof.
  intros HXY HYX. apply set_eq. intros x. split; [apply HXY|apply HYX].
Qed.

Lemma union_absorb (X Y : gset string) : X ⊆ Y → X ∪ Y = Y.
Proof.
  intros Hsub. apply set_eq. intros x. rewrite elem_of_union. split.
  - intros [Hx|Hx]; [by apply Hsub|done].
  - by right.
Qed.

(** ** The reconciler *)

Section Reconciler.

Variable DOMAIN : string.
Variable CONNECTION_NETWORK_MAC : string.
Variable format_mac : string → string.

Local Abbreviation pass :=
  (add_entities DOMAIN CONNECTION_NETWORK_MAC format_mac).
Local Abbreviation sweep := (remove_entities DOMAIN).

(** An iteration of the removal loop whose lookup finds nothing does
    nothing. *)
Lemma remove_entities_skip hass device_id rest :
  async_get_entity_id (er_async_get hass) "switch" DOMAIN device_id = None →
  sweep hass (device_id :: rest) = sweep hass rest.
Proof. intros Hnone. simpl. by rewrite Hnone. Qed.

(** What the removal loop does to the registry and what it asks of the
    host. *)
Lemma remove_entities_spec ids : ∀ hass,
  let result := sweep hass ids in
  (∀ effect, effect ∈ result.2 →
     ∃ entity device_id,
       effect = RegistryRemove entity ∧ device_id ∈ ids
       ∧ entity_registry hass !! entity
         = Some (entry_of "switch" DOMAIN device_id))
  ∧ (∀ entity item,
       entity_registry result.1 !! entity = Some item →
       entity_registry hass !! entity = Some item)
  ∧ (∀ entity item,
       entity_registry hass !! entity = Some item →
       entity_registry result.1 !! entity = None →
       RegistryRemove entity ∈ result.2).
Proof.
  induction ids as [|device_id rest IH]; intros hass; simpl.
  - split; [|split; [done|congruence]].
    intros effect Hin. by apply elem_of_nil in Hin.
  - destruct (async_get_entity_id _ _ _ _) as [entity|] eqn:Hfind;
      [destruct (truthy entity)|].
    + specialize (IH (async_remove hass entity)).
      destruct (sweep (async_remove hass entity) rest) as [hass' effects].
      simpl in *. destruct IH as (IH1 & IH2 & IH3).
      apply async_get_entity_id_Some in Hfind. unfold er_async_get in Hfind.
      split; [|split].
      * intros effect [->|Hin]%elem_of_cons.
        -- exists entity, device_id. split; [done|]. split; [left|done].
        -- destruct (IH1 _ Hin) as (entity' & d & -> & Hd & Hentry).
           exists entity', d. split; [done|]. split; [by right|].
           by apply lookup_delete_Some in Hentry as [_ ?].
      * intros entity' item Hentry. apply IH2 in Hentry.
        by apply lookup_delete_Some in Hentry as [_ ?].
      * intros entity' item Hentry Hgone.
        destruct (decide (entity' = entity)) as [->|Hne]; [left|].
        right. eapply IH3; [|done]. by rewrite lookup_delete_ne.
    + destruct (IH hass) as (IH1 & IH2 & IH3).
      split; [|done]. intros effect Hin.
      destruct (IH1 _ Hin) as (entity' & d & -> & Hd & Hentry).
      exists entity', d. split; [done|]. split; [by right|done].
    + destruct (IH hass) as (IH1 & IH2 & IH3).
      split; [|done]. intros effect Hin.
      destruct (IH1 _ Hin) as (entity' & d & -> & Hd & Hentry).
      exists entity', d. split; [done|]. split; [by right|done].
Qed.

(** With no registered entity for any of the ids the loop is a no-op. *)
Lemma remove_entities_nothing_registered ids hass :
  (∀ device_id, device_id ∈ ids →
     async_get_entity_id (er_async_get hass) "switch" DOMAIN device_id = None) →
  sweep hass ids = (hass, []).
Proof.
  induction ids as [|device_id rest IH]; intros Hnone; [done|].
  rewrite remove_entities_skip by (apply Hnone; left).
  apply IH. intros d Hd. apply Hnone. by right.
Qed.

(** The tracked set after a pass, branch by branch. *)
Lemma pass_lists_added coordinator st :
  lists_added (pass coordinator st).1 =
    if decide (new_lists coordinator ∖ lists_added st ≠ ∅)
    then lists_added st ∪ new_lists coordinator
    else if decide (lists_added st ∖ new_lists coordinator ≠ ∅)
    then lists_added st ∖ (lists_added st ∖ new_lists coordinator)
    else lists_added st.
Proof.
  unfold add_entities. repeat case_decide; try done.
  by destruct (sweep _ _).
Qed.

(** X1: the qualifying set holds exactly the device ids that the
    classifier accepts and that the client of some registered device
    coordinator reports, under whatever key that coordinator is stored. *)
Lemma elem_of_new_lists coordinator id :
  id ∈ new_lists coordinator ↔
  _is_switch_device coordinator id = true
  ∧ ∃ key device_coordinator,
      device_coordinators coordinator !! key = Some device_coordinator
      ∧ device_id (device_client device_coordinator) = id.
Proof.
  unfold new_lists. rewrite elem_of_list_to_set, list_elem_of_fmap. split.
  - intros (dc & -> & Hin). apply list_elem_of_filter in Hin as [Hq Hin].
    apply list_elem_of_fmap in Hin as ([key dc'] & -> & Hin).
    apply elem_of_map_to_list in Hin. split; [done|]. by exists key, dc'.
  - intros (Hq & key & dc & Hdc & <-). exists dc. split; [done|].
    apply list_elem_of_filter. split; [done|].
    apply list_elem_of_fmap. exists (key, dc). split; [done|].
    by apply elem_of_map_to_list.
Qed.

(** The tracked set after a pass, by what the pass found. *)
Lemma pass_lists_added_subset coordinator st :
  lists_added (pass coordinator st).1 =
    if decide (new_lists coordinator ⊆ lists_added st)
    then new_lists coordinator
    else lists_added st ∪ new_lists coordinator.
Proof.
  rewrite pass_lists_added.
  destruct (decide (new_lists coordinator ⊆ lists_added st)) as [Hsub|Hns].
  - rewrite decide_False by (rewrite difference_nonempty; tauto).
    case_decide as Hrem.
    + by apply difference_twice.
    + apply subset_antisym_L; [|done].
      destruct (decide (lists_added st ⊆ new_lists coordinator)) as [|Hns];
        [done|].
      apply difference_nonempty in Hns. by destruct Hrem.
  - rewrite decide_True; [done|]. by apply difference_nonempty.
Qed.

(** C4: when the qualifying set equals the tracked set, a pass hands
    nothing to the host and leaves the registry and the tracked set as
    they were. *)
Theorem add_entities_unchanged_noop coordinator st :
  new_lists coordinator = lists_added st →
  pass coordinator st = (st, []).
Proof.
  intros Heq. unfold add_entities. rewrite Heq.
  rewrite !decide_False; [done|..];
    intros Hne; apply difference_nonempty in Hne; by apply Hne.
Qed.

(** C1, amended: the tracked set equals the qualifying set after a pass
    unless the pass had both devices to add and devices to remove; then
    only the additions run and the tracked set is the union of the old
    tracked set and the qualifying set, and a second pass over the same
    coordinator brings it to the qualifying set. *)
Theorem add_entities_tracked_set coordinator st :
  let qualifying := new_lists coordinator in
  let after := (pass coordinator st).1 in
  (qualifying ⊆ lists_added st ∨ lists_added st ⊆ qualifying →
     lists_added after = qualifying)
  ∧ (qualifying ⊈ lists_added st →
     lists_added after = lists_added st ∪ qualifying)
  ∧ lists_added (pass coordinator after).1 = qualifying.
Proof.
  intros qualifying after. unfold after.
  rewrite !pass_lists_added_subset. fold qualifying.
  split; [|split].
  - intros [Hsub|Hsub].
    + by rewrite decide_True.
    + case_decide; [done|]. by apply union_absorb.
  - intros Hadd. by rewrite decide_False.
  - rewrite (decide_True (P := qualifying ⊆ _)); [done|].
    case_decide; [done|]. apply union_subseteq_r.
Qed.

(** When the qualifying set has a member that is not tracked, the pass
    hands the host one generator over the whole qualifying set and
    touches nothing else. *)
Lemma add_branch_effect coordinator st :
  new_lists coordinator ⊈ lists_added st →
  pass coordinator st =
    ({| hass := hass st;
        lists_added := lists_added st ∪ new_lists coordinator |},
     [AddEntities
        (entity_generator DOMAIN CONNECTION_NETWORK_MAC format_mac (hass st)
           coordinator (elements (new_lists coordinator)))]).
Proof.
  intros Hadd. unfold add_entities.
  rewrite decide_True; [done|]. by apply difference_nonempty.
Qed.

(** C5: in the removal branch every request made of the host is the
    removal of an entity registered under ("switch", DOMAIN, d) for a
    device d that left the qualifying set; every other registry entry is
    still there afterwards, and none appears. *)
Theorem removal_branch_frame coordinator st :
  new_lists coordinator ∖ lists_added st = ∅ →
  lists_added st ∖ new_lists coordinator ≠ ∅ →
  let removed := lists_added st ∖ new_lists coordinator in
  let result := pass coordinator st in
  (∀ effect, effect ∈ result.2 →
     ∃ entity device_id,
       effect = RegistryRemove entity ∧ device_id ∈ removed
       ∧ entity_registry (hass st) !! entity
         = Some (entry_of "switch" DOMAIN device_id))
  ∧ (∀ entity item,
       entity_registry (hass st) !! entity = Some item →
       (∀ device_id, device_id ∈ removed →
          item ≠ entry_of "switch" DOMAIN device_id) →
       entity_registry (hass result.1) !! entity = Some item)
  ∧ (∀ entity item,
       entity_registry (hass result.1) !! entity = Some item →
       entity_registry (hass st) !! entity = Some item).
Proof.
  intros Hnoadd Hrem removed result. unfold result, add_entities.
  rewrite decide_False by (by intros ?).
  rewrite decide_True by done. fold removed.
  pose proof (remove_entities_spec (elements removed) (hass st)) as Hspec.
  destruct (sweep (hass st) (elements removed)) as [hass' effects].
  simpl in *. destruct Hspec as (Heff & Hsub & Hgone).
  split; [|split].
  - intros effect Hin.
    destruct (Heff _ Hin) as (entity & d & -> & Hd & Hentry).
    exists entity, d. by rewrite elem_of_elements in Hd.
  - intros entity item Hentry Hother.
    destruct (entity_registry hass' !! entity) as [item'|] eqn:Hafter.
    + apply Hsub in Hafter. congruence.
    + apply (Hgone _ _ Hentry), Heff in Hafter
        as (entity' & d & [= <-] & Hd & Hentry').
      apply elem_of_elements in Hd. destruct (Hother d Hd). congruence.
  - done.
Qed.

(** C10: in the removal branch every device that left the qualifying set
    leaves the tracked set whether or not the host has an entity for it;
    an iteration whose lookup finds no entity asks nothing of the host
    and changes nothing, and when no such device has an entity the whole
    pass asks nothing and leaves the registry as it was. *)
Theorem removal_branch_missing_entity coordinator st :
  new_lists coordinator ∖ lists_added st = ∅ →
  lists_added st ∖ new_lists coordinator ≠ ∅ →
  let removed := lists_added st ∖ new_lists coordinator in
  let result := pass coordinator st in
  (∀ device_id, device_id ∈ removed → device_id ∉ lists_added result.1)
  ∧ lists_added result.1 = lists_added st ∖ removed
  ∧ ((∀ device_id, device_id ∈ removed →
        async_get_entity_id (er_async_get (hass st)) "switch" DOMAIN device_id
        = None) →
     result.2 = [] ∧ hass result.1 = hass st)
  ∧ (∀ hass device_id rest,
       async_get_entity_id (er_async_get hass) "switch" DOMAIN device_id
       = None →
       sweep hass (device_id :: rest) = sweep hass rest).
Proof.
  intros Hnoadd Hrem removed result.
  assert (Htracked : lists_added result.1 = lists_added st ∖ removed).
  { unfold result. rewrite pass_lists_added.
    rewrite decide_False by (by intros ?). by rewrite decide_True. }
  split; [|split; [done|split]].
  - intros d Hd. rewrite Htracked. rewrite elem_of_difference. tauto.
  - intros Hnone. unfold result, add_entities.
    rewrite decide_False by (by intros ?).
    rewrite decide_True by done. fold removed.
    rewrite remove_entities_nothing_registered; [done|].
    intros d Hd. apply Hnone. by apply elem_of_elements.
  - intros. by apply remove_entities_skip.
Qed.

End Reconciler.

(** ** The pass on the sample installation *)

Section Examples.
Import Sample.

Example classifier_examples :
  _is_switch_device registry "a" = true
  ∧ _is_switch_device registry "b" = true
  ∧ _is_switch_device registry "c" = false
  ∧ _is_switch_device registry "unknown" = false.
Proof. by vm_compute. Qed.

Example qualifying_sample : new_lists registry = {["a"; "b"]}.
Proof. by vm_compute. Qed.

Example first_pass_tracks_qualifying :
  lists_added (async_setup_entry "aidot" "mac" id host registry).1
  = {["a"; "b"]}.
Proof. by vm_compute. Qed.

End Examples.

(** C1, as stated, fails: with ["z"] tracked and ["a"], ["b"] qualifying,
    the pass adds and does not remove, and the tracked set is not the
    qualifying set. *)
Lemma tracked_set_differs_when_adding_and_removing :
  lists_added (Sample.pass Sample.registry (Sample.setup {["z"]})).1
  ≠ new_lists Sample.registry.
Proof. apply (bool_decide_unpack _). by vm_compute. Qed.

(** C2 on a failing input: with ["a"] already tracked and ["b"] newly
    qualifying, the pass hands the host an adapter for ["a"] as well as
    one for ["b"]. *)
Lemma add_branch_reinstantiates_tracked :
  "a" ∈ lists_added (Sample.setup {["a"]})
  ∧ (Sample.pass Sample.registry (Sample.setup {["a"]})).2
    = [AddEntities
         (inr [AidotSwitch__init__ "aidot" "mac" id Sample.host
                 (Sample.device "a" "aidot.plug.v1" false);
               AidotSwitch__init__ "aidot" "mac" id Sample.host
                 (Sample.device "b" "aidot.wall" true)])].
Proof.
  split.
  - apply (bool_decide_unpack _). by vm_compute.
  - by vm_compute.
Qed.

(** ** Instances on the sample installation *)

Lemma is_switch_device_iff_witness :
  default "" (device_types Sample.registry !! "unknown") = ""
  ∧ _is_switch_device Sample.registry "unknown" = false.
Proof.
  split; [by vm_compute|].
  apply (proj2 (is_switch_device_iff Sample.registry "unknown")).
  by vm_compute.
Defined.

Lemma init_manufacturer_model_witness :
  PyStr.has_char "." "aidot.plug.v1"
  ∧ ∃ device_info,
      _attr_device_info
        (AidotSwitch__init__ "aidot" "mac" id Sample.host
           (Sample.device "a" "aidot.plug.v1" false)) = Some device_info
      ∧ "aidot.plug.v1"
        = manufacturer device_info +:+ "." +:+ model device_info.
Proof.
  assert (Hdot : PyStr.has_char "." "aidot.plug.v1")
    by (simpl; repeat first [left; reflexivity | right]).
  split; [exact Hdot|].
  destruct (init_manufacturer_model "aidot" "mac" id Sample.host
              (Sample.device "a" "aidot.plug.v1" false))
    as (device_info & Hinfo & _ & Hsplit & _).
  exists device_info. split; [exact Hinfo|]. exact (Hsplit Hdot).
Defined.

Lemma turn_failure_keeps_optimistic_state_witness :
  let self :=
    AidotSwitch__init__ "aidot" "mac" id Sample.host
      (Sample.device "a" "aidot.plug.v1" false) in
  Sample.unreachable ClientTurnOn = Failed (ClientError "timeout")
  ∧ (run Sample.unreachable async_turn_on self).2
    = inl (ClientError "timeout")
  ∧ _attr_is_on (run Sample.unreachable async_turn_on self).1 = Some true
  ∧ on (data (coordinator (run Sample.unreachable async_turn_on self).1))
    = true.
Proof.
  intros self. split; [reflexivity|].
  apply (proj1 (turn_failure_keeps_optimistic_state self
                  Sample.unreachable (ClientError "timeout"))).
  reflexivity.
Defined.

Lemma add_entities_unchanged_noop_witness :
  new_lists Sample.registry = lists_added (Sample.setup {["a"; "b"]})
  ∧ Sample.pass Sample.registry (Sample.setup {["a"; "b"]})
    = (Sample.setup {["a"; "b"]}, []).
Proof.
  assert (Hsame : new_lists Sample.registry
                  = lists_added (Sample.setup {["a"; "b"]}))
    by (by vm_compute).
  split; [exact Hsame|].
  exact (add_entities_unchanged_noop "aidot" "mac" id Sample.registry
           (Sample.setup {["a"; "b"]}) Hsame).
Defined.

Lemma add_entities_tracked_set_witness :
  (new_lists Sample.registry ⊆ lists_added (Sample.setup {["a"; "b"; "z"]})
   ∧ lists_added
       (Sample.pass Sample.registry (Sample.setup {["a"; "b"; "z"]})).1
     = new_lists Sample.registry)
  ∧ (new_lists Sample.registry ⊈ lists_added (Sample.setup {["z"]})
     ∧ lists_added (Sample.pass Sample.registry (Sample.setup {["z"]})).1
       = lists_added (Sample.setup {["z"]}) ∪ new_lists Sample.registry).
Proof.
  assert (Hsub : new_lists Sample.registry
                 ⊆ lists_added (Sample.setup {["a"; "b"; "z"]}))
    by (apply (bool_decide_unpack _); by vm_compute).
  assert (Hnsub : new_lists Sample.registry
                  ⊈ lists_added (Sample.setup {["z"]}))
    by (apply (bool_decide_unpack _); by vm_compute).
  split; (split; [done|]).
  - apply (proj1 (add_entities_tracked_set "aidot" "mac" id Sample.registry
                    (Sample.setup {["a"; "b"; "z"]}))).
    by left.
  - by apply (proj1 (proj2 (add_entities_tracked_set "aidot" "mac" id
                              Sample.registry (Sample.setup {["z"]})))).
Defined.

Lemma removal_branch_frame_witness :
  let st := Sample.setup {["a"; "b"; "z"]} in
  new_lists Sample.registry ∖ lists_added st = ∅
  ∧ lists_added st ∖ new_lists Sample.registry ≠ ∅
  ∧ ∀ effect, effect ∈ (Sample.pass Sample.registry st).2 →
      ∃ entity device_id,
        effect = RegistryRemove entity
        ∧ device_id ∈ lists_added st ∖ new_lists Sample.registry
        ∧ entity_registry (hass st) !! entity
          = Some (entry_of "switch" "aidot" device_id).
Proof.
  intros st.
  assert (Hnoadd : new_lists Sample.registry ∖ lists_added st = ∅)
    by (by vm_compute).
  assert (Hrem : lists_added st ∖ new_lists Sample.registry ≠ ∅)
    by (apply (bool_decide_unpack _); by vm_compute).
  split; [exact Hnoadd|]. split; [exact Hrem|].
  exact (proj1 (removal_branch_frame "aidot" "mac" id Sample.registry st
                  Hnoadd Hrem)).
Defined.

Lemma removal_branch_missing_entity_witness :
  let st := Sample.setup {["a"; "b"; "y"]} in
  new_lists Sample.registry ∖ lists_added st = ∅
  ∧ lists_added st ∖ new_lists Sample.registry ≠ ∅
  ∧ async_get_entity_id (er_async_get (hass st)) "switch" "aidot" "y" = None
  ∧ lists_added (Sample.pass Sample.registry st).1
    = lists_added st ∖ (lists_added st ∖ new_lists Sample.registry).
Proof.
  intros st.
  assert (Hnoadd : new_lists Sample.registry ∖ lists_added st = ∅)
    by (by vm_compute).
  assert (Hrem : lists_added st ∖ new_lists Sample.registry ≠ ∅)
    by (apply (bool_decide_unpack _); by vm_compute).
  split; [exact Hnoadd|]. split; [exact Hrem|]. split; [by vm_compute|].
  exact (proj1 (proj2 (removal_branch_missing_entity "aidot" "mac" id
                         Sample.registry st Hnoadd Hrem))).
Defined.

(** * Further properties of the platform *)

(** ** What a pass hands to the host *)

Section Passes.

Variable DOMAIN : string.
Variable CONNECTION_NETWORK_MAC : string.
Variable format_mac : string → string.

Local Abbreviation pass :=
  (add_entities DOMAIN CONNECTION_NETWORK_MAC format_mac).
Local Abbreviation sweep := (remove_entities DOMAIN).
Local Abbreviation generate :=
  (entity_generator DOMAIN CONNECTION_NETWORK_MAC format_mac).
Local Abbreviation init :=
  (AidotSwitch__init__ DOMAIN CONNECTION_NETWORK_MAC format_mac).

Lemma init_keeps_coordinator hass device_coordinator :
  coordinator (init hass device_coordinator) = device_coordinator.
Proof. by destruct device_coordinator as [client []]. Qed.

(** X2: whatever the state before, after a pass every qualifying device
    is tracked, and every tracked device was tracked before or qualifies
    now. *)
Theorem pass_tracks_qualifying registry st :
  new_lists registry ⊆ lists_added (pass registry st).1
  ∧ lists_added (pass registry st).1
    ⊆ lists_added st ∪ new_lists registry.
Proof.
  rewrite pass_lists_added_subset. case_decide; split.
  - done.
  - apply union_subseteq_r.
  - apply union_subseteq_r.
  - done.
Qed.

Lemma sweep_only_removes ids hass :
  Forall (λ effect, is_removal effect = true) (sweep hass ids).2.
Proof.
  apply Forall_forall. intros effect Hin.
  destruct (remove_entities_spec DOMAIN ids hass) as (Heff & _).
  by destruct (Heff _ Hin) as (entity & d & -> & _).
Qed.

(** X3: a pass never both creates adapters and removes entities: either
    something new qualifies, and the pass hands over one generator and
    leaves the registry alone, or nothing new qualifies and every request
    is a removal. *)
Theorem pass_adds_or_removes registry st :
  (new_lists registry ⊈ lists_added st
   ∧ (∃ entities, (pass registry st).2 = [AddEntities entities])
   ∧ hass (pass registry st).1 = hass st)
  ∨ (new_lists registry ⊆ lists_added st
     ∧ Forall (λ effect, is_removal effect = true) (pass registry st).2).
Proof.
  destruct (decide (new_lists registry ⊆ lists_added st)) as [Hsub|Hadd].
  - right. split; [done|]. unfold add_entities.
    rewrite decide_False
      by (intros Hne; by apply difference_nonempty in Hne).
    case_decide; [|done].
    pose proof (sweep_only_removes
                  (elements (lists_added st ∖ new_lists registry))
                  (hass st)) as Hall.
    by destruct (sweep _ _).
  - left. split; [done|]. rewrite add_branch_effect by done.
    split; [by eexists|done].
Qed.

(** X4: the generator yields, in order, one adapter per id, each wrapping
    the coordinator stored under that id; when an id is not a key of
    [device_coordinators] it raises [KeyError] for such an id instead. *)
Theorem entity_generator_outcome hass registry ids :
  match generate hass registry ids with
  | inr entities =>
      Forall2
        (λ id entity,
           device_coordinators registry !! id = Some (coordinator entity)
           ∧ _attr_unique_id entity
             = Info.dev_id (info (device_client (coordinator entity))))
        ids entities
  | inl e =>
      ∃ id, e = KeyError id ∧ id ∈ ids
            ∧ device_coordinators registry !! id = None
  end.
Proof.
  induction ids as [|id rest IH]; simpl; [constructor|].
  unfold getitem.
  destruct (device_coordinators registry !! id) as [dc|] eqn:Hid.
  - destruct (generate hass registry rest) as [e|entities].
    + destruct IH as (id' & -> & Hin & Hnone).
      exists id'. split; [done|]. split; [by right|done].
    + by constructor.
  - exists id. split; [done|]. split; [left|done].
Qed.

Lemma generate_keyed hass registry ids :
  (∀ id, id ∈ ids →
     ∃ dc, device_coordinators registry !! id = Some dc
           ∧ device_id (device_client dc) = id) →
  ∃ entities,
    generate hass registry ids = inr entities
    ∧ adapter_ids entities = ids.
Proof.
  induction ids as [|id rest IH]; intros Hall; simpl.
  - by exists [].
  - destruct (Hall id) as (dc & Hdc & Hid); [left|].
    unfold getitem. rewrite Hdc.
    destruct IH as (entities & -> & Hids).
    { intros id' Hin. apply Hall. by right. }
    eexists. split; [done|]. unfold adapter_ids. rewrite fmap_cons.
    f_equal; [exact Hid|exact Hids].
Qed.

(** X5: when every device coordinator is stored under its own device id
    and something new qualifies, the generator does not fail and yields
    exactly one adapter per qualifying device, tracked before or not. *)
Theorem add_branch_adapters registry st :
  keyed_by_device_id registry →
  new_lists registry ⊈ lists_added st →
  ∃ entities,
    (pass registry st).2 = [AddEntities (inr entities)]
    ∧ adapter_ids entities = elements (new_lists registry)
    ∧ NoDup (adapter_ids entities)
    ∧ length entities = size (new_lists registry).
Proof.
  intros Hkeyed Hadd. rewrite add_branch_effect by done. simpl.
  destruct (generate_keyed (hass st) registry
              (elements (new_lists registry))) as (entities & -> & Hids).
  { intros id Hin. apply elem_of_elements, elem_of_new_lists in Hin
      as (_ & key & dc & Hdc & Hid).
    exists dc. split; [|done].
    by rewrite <- Hid, (Hkeyed _ _ Hdc). }
  exists entities. split; [done|]. split; [done|]. split.
  - rewrite Hids. apply NoDup_elements.
  - apply (f_equal length) in Hids. unfold adapter_ids in Hids.
    by rewrite length_fmap in Hids.
Qed.

(** X6: when a qualifying device id is not a key of
    [device_coordinators], the generator handed to the host raises
    [KeyError] for a qualifying id that is not a key, and the pass has
    nevertheless recorded every qualifying id as tracked. *)
Theorem add_branch_key_error registry st id :
  new_lists registry ⊈ lists_added st →
  id ∈ new_lists registry →
  device_coordinators registry !! id = None →
  ∃ missing,
    (pass registry st).2 = [AddEntities (inl (KeyError missing))]
    ∧ missing ∈ new_lists registry
    ∧ device_coordinators registry !! missing = None
    ∧ new_lists registry ⊆ lists_added (pass registry st).1.
Proof.
  intros Hadd Hid Hnone. rewrite add_branch_effect by done. simpl.
  pose proof (entity_generator_outcome (hass st) registry
                (elements (new_lists registry))) as Hgen.
  destruct (generate _ _ _) as [e|entities].
  - destruct Hgen as (missing & -> & Hin & Hmissing).
    exists missing. split; [done|]. split; [by apply elem_of_elements|].
    split; [done|]. apply union_subseteq_r.
  - apply elem_of_elements, list_elem_of_lookup in Hid as [i Hi].
    destruct (Forall2_lookup_l _ _ _ _ _ Hgen Hi) as (entity & _ & Hsome & _).
    congruence.
Qed.

(** ** The removal loop, entity by entity *)

Lemma sweep_removals ids : ∀ hass,
  let result := sweep hass ids in
  NoDup result.2
  ∧ length result.2 ≤ length ids
  ∧ ∀ entity, RegistryRemove entity ∈ result.2 →
      entity_registry result.1 !! entity = None.
Proof.
  induction ids as [|device_id rest IH]; intros hass; simpl.
  - split; [constructor|]. split; [done|].
    intros entity Hin. by apply elem_of_nil in Hin.
  - destruct (async_get_entity_id _ _ _ _) as [entity|] eqn:Hfind;
      [destruct (truthy entity)|].
    + pose proof (remove_entities_spec DOMAIN rest
                    (async_remove hass entity)) as Hspec.
      specialize (IH (async_remove hass entity)).
      destruct (sweep (async_remove hass entity) rest) as [hass' effects].
      simpl in *. destruct IH as (Hnodup & Hlen & Hgone).
      destruct Hspec as (Heff & Hsub & _).
      split; [|split].
      * apply NoDup_cons. split; [|done]. intros Hin.
        destruct (Heff _ Hin) as (entity' & d & [= <-] & _ & Hentry).
        by rewrite lookup_delete_eq in Hentry.
      * lia.
      * intros entity' [[= ->]|Hin]%elem_of_cons; [|by apply Hgone].
        destruct (entity_registry hass' !! entity) as [item|] eqn:Hafter;
          [|done].
        apply Hsub in Hafter. by rewrite lookup_delete_eq in Hafter.
    + destruct (IH hass) as (Hnodup & Hlen & Hgone).
      split; [done|]. split; [lia|done].
    + destruct (IH hass) as (Hnodup & Hlen & Hgone).
      split; [done|]. split; [lia|done].
Qed.

(** X7: no pass asks twice for the same thing; every entity a pass
    removes was in the registry before the pass and is not in it after;
    and a pass issues at most one removal per device that left. *)
Theorem pass_removals_distinct registry st :
  NoDup (pass registry st).2
  ∧ (∀ entity, RegistryRemove entity ∈ (pass registry st).2 →
       is_Some (entity_registry (hass st) !! entity)
       ∧ entity_registry (hass (pass registry st).1) !! entity = None)
  ∧ length (filter (λ effect, is_removal effect = true) (pass registry st).2)
    ≤ size (lists_added st ∖ new_lists registry).
Proof.
  unfold add_entities. case_decide as Hadd; [|case_decide as Hrem]; simpl.
  - split; [apply NoDup_singleton|]. split; [|simpl; lia].
    intros entity Hin. apply list_elem_of_singleton in Hin. done.
  - pose proof (sweep_removals
                  (elements (lists_added st ∖ new_lists registry))
                  (hass st)) as Hsweep.
    pose proof (remove_entities_spec DOMAIN
                  (elements (lists_added st ∖ new_lists registry))
                  (hass st)) as Hspec.
    destruct (sweep _ _) as [hass' effects]. simpl in *.
    destruct Hsweep as (Hnodup & Hlen & Hgone).
    destruct Hspec as (Heff & _).
    split; [done|]. split.
    + intros entity Hin. split; [|by apply Hgone].
      destruct (Heff _ Hin) as (entity' & d & [= <-] & _ & Hentry).
      by eexists.
    + etrans; [apply length_filter|]. done.
  - split; [constructor|]. split; [|simpl; lia].
    intros entity Hin. by apply elem_of_nil in Hin.
Qed.

(** ** Registries with a unique index *)

Lemma registry_indexed_alt hass :
  registry_indexed hass ↔
  (∀ entity entity' item,
     entity_registry hass !! entity = Some item →
     entity_registry hass !! entity' = Some item → entity = entity')
  ∧ entity_registry hass !! "" = None.
Proof.
  unfold registry_indexed. split; intros [Hinj Hempty]; (split; [|done]).
  - intros entity entity' item Hentity Hentity'.
    by apply (Hinj _ _ Hentity _ _ Hentity').
  - intros entity item Hentity entity' item' Hentity' ->.
    by apply (Hinj _ _ _ Hentity Hentity').
Qed.

Lemma sweep_clears ids : ∀ hass,
  registry_indexed hass →
  ∀ device_id, device_id ∈ ids →
  ∀ entity,
    entity_registry (sweep hass ids).1 !! entity
    ≠ Some (entry_of "switch" DOMAIN device_id).
Proof.
  induction ids as [|d rest IH]; intros hass Hwf device_id Hin entity.
  { by apply elem_of_nil in Hin. }
  pose proof Hwf as [Hinj Hempty]%registry_indexed_alt.
  simpl.
  destruct (async_get_entity_id _ _ _ _) as [found|] eqn:Hfind.
  - apply async_get_entity_id_Some in Hfind. unfold er_async_get in Hfind.
    destruct found as [|c found]; [congruence|]. simpl.
    assert (Hwf' : registry_indexed (async_remove hass (String c found))).
    { apply registry_indexed_alt. simpl. split.
      - intros e e' item [_ He]%lookup_delete_Some [_ He']%lookup_delete_Some.
        by apply (Hinj _ _ _ He He').
      - apply lookup_delete_None. by right. }
    pose proof (remove_entities_spec DOMAIN rest
                  (async_remove hass (String c found))) as Hspec.
    specialize (IH (async_remove hass (String c found)) Hwf').
    destruct (sweep (async_remove hass (String c found)) rest)
      as [hass' effects].
    simpl in *. destruct Hspec as (_ & Hsub & _).
    apply elem_of_cons in Hin as [->|Hin]; [|by apply IH].
    intros Hentity. apply Hsub, lookup_delete_Some in Hentity as [Hne Hentity].
    by destruct Hne; apply (Hinj _ _ _ Hfind Hentity).
  - apply elem_of_cons in Hin as [->|Hin]; [|by apply IH].
    destruct (remove_entities_spec DOMAIN rest hass) as (_ & Hsub & _).
    intros Hentity. apply Hsub in Hentity.
    by apply (proj1 (async_get_entity_id_None _ _ _ _) Hfind entity).
Qed.

Lemma sweep_keeps_others ids hass entity item :
  entity_registry hass !! entity = Some item →
  (∀ device_id, device_id ∈ ids →
     item ≠ entry_of "switch" DOMAIN device_id) →
  entity_registry (sweep hass ids).1 !! entity = Some item.
Proof.
  intros Hentity Hother.
  destruct (remove_entities_spec DOMAIN ids hass) as (Heff & Hsub & Hgone).
  destruct (entity_registry (sweep hass ids).1 !! entity)
    as [item'|] eqn:Hafter.
  - apply Hsub in Hafter. congruence.
  - apply (Hgone _ _ Hentity), Heff in Hafter
      as (entity' & d & [= <-] & Hd & Hentry').
    destruct (Hother d Hd). congruence.
Qed.

(** X8: when no two entities of the registry share a key and no entity
    id is empty, the removal branch leaves exactly the entries that are
    not those of a device that left: afterwards no such device has a
    switch entity of this platform, every other entry is as before, and
    the registry is still uniquely indexed. *)
Theorem removal_branch_clears_registry registry st :
  registry_indexed (hass st) →
  new_lists registry ∖ lists_added st = ∅ →
  lists_added st ∖ new_lists registry ≠ ∅ →
  let removed := lists_added st ∖ new_lists registry in
  let after := hass (pass registry st).1 in
  (∀ device_id, device_id ∈ removed →
     async_get_entity_id (er_async_get after) "switch" DOMAIN device_id
     = None)
  ∧ (∀ entity item,
       entity_registry after !! entity = Some item ↔
       entity_registry (hass st) !! entity = Some item
       ∧ ∀ device_id, device_id ∈ removed →
           item ≠ entry_of "switch" DOMAIN device_id)
  ∧ registry_indexed after.
Proof.
  intros Hwf Hnoadd Hrem removed after.
  assert (Hafter : after = (sweep (hass st) (elements removed)).1).
  { unfold after, add_entities.
    rewrite decide_False by (by intros ?).
    rewrite decide_True by done. fold removed.
    by destruct (sweep _ _). }
  rewrite Hafter. clear after Hafter.
  pose proof (sweep_clears (elements removed) (hass st) Hwf) as Hclear.
  destruct (remove_entities_spec DOMAIN (elements removed) (hass st))
    as (_ & Hsub & _).
  split; [|split].
  - intros d Hd. apply async_get_entity_id_None. intros entity.
    apply Hclear. by apply elem_of_elements.
  - intros entity item. split.
    + intros Hentity. split; [by apply Hsub|].
      intros d Hd ->.
      by apply (Hclear d (proj2 (elem_of_elements _ _) Hd) entity).
    + intros [Hentity Hother]. apply sweep_keeps_others; [done|].
      intros d Hd. apply Hother. by apply elem_of_elements.
  - apply registry_indexed_alt in Hwf as [Hinj Hempty].
    apply registry_indexed_alt. split.
    + intros e e' item He He'. apply (Hinj e e' item); by apply Hsub.
    + destruct (entity_registry (sweep (hass st) (elements removed)).1 !! "")
        as [item|] eqn:Hlook; [|done].
      apply Hsub in Hlook. congruence.
Qed.

End Passes.

(** ** Setting up and listening *)

Section Listening.

Variable DOMAIN : string.
Variable CONNECTION_NETWORK_MAC : string.
Variable format_mac : string → string.

Local Abbreviation pass :=
  (add_entities DOMAIN CONNECTION_NETWORK_MAC format_mac).
Local Abbreviation generate :=
  (entity_generator DOMAIN CONNECTION_NETWORK_MAC format_mac).
Local Abbreviation setup_entry :=
  (async_setup_entry DOMAIN CONNECTION_NETWORK_MAC format_mac).
Local Abbreviation listen :=
  (on_notifications DOMAIN CONNECTION_NETWORK_MAC format_mac).
Local Abbreviation whole_run :=
  (platform_run DOMAIN CONNECTION_NETWORK_MAC format_mac).

(** X9: setting the platform up tracks exactly the qualifying devices
    and never touches the registry; it hands the host one generator over
    the qualifying set, or nothing at all when no device qualifies. *)
Theorem setup_entry_first_pass hass0 registry :
  let result := setup_entry hass0 registry in
  lists_added result.1 = new_lists registry
  ∧ hass result.1 = hass0
  ∧ (new_lists registry = ∅ → result.2 = [])
  ∧ (new_lists registry ≠ ∅ →
       result.2 =
         [AddEntities
            (generate hass0 registry (elements (new_lists registry)))]).
Proof.
  intros result. unfold result, async_setup_entry, add_entities. simpl.
  rewrite difference_empty_L.
  destruct (decide (new_lists registry ≠ ∅)) as [Hsome|Hnone]; simpl.
  - split; [apply union_empty_l_L|]. split; [done|]. split; [|done].
    intros Hempty. by destruct Hsome.
  - assert (Hempty : new_lists registry = ∅).
    { destruct (decide (new_lists registry = ∅)); [done|]. by destruct Hnone. }
    rewrite decide_False.
    + simpl. split; [done|]. split; [done|]. split; [done|].
      intros Hne. by destruct Hne.
    + intros Hne. apply difference_nonempty in Hne. apply Hne.
      apply empty_subseteq.
Qed.

(** X12: two passes over the same coordinator contents settle the
    reconciler: a third pass returns the state unchanged and asks
    nothing of the host. *)
Theorem third_pass_is_quiet registry st :
  let settled := (pass registry (pass registry st).1).1 in
  pass registry settled = (settled, []).
Proof.
  intros settled.
  assert (Hsettled : lists_added settled = new_lists registry).
  { unfold settled. rewrite !pass_lists_added_subset.
    rewrite (decide_True (P := new_lists registry ⊆ _)); [done|].
    case_decide; [done|]. apply union_subseteq_r. }
  unfold add_entities. rewrite Hsettled.
  rewrite !decide_False; [done|..];
    intros Hne; apply difference_nonempty in Hne; by apply Hne.
Qed.

Lemma listen_app notifications notifications' st :
  (listen (notifications ++ notifications') st).1
  = (listen notifications' (listen notifications st).1).1.
Proof.
  revert st. induction notifications as [|n rest IH]; intros st; [done|].
  simpl. destruct (pass (snapshot n) _) as [st2 effects].
  specialize (IH st2).
  destruct (listen (rest ++ notifications') st2) as [st3 effects3].
  destruct (listen rest st2) as [st4 effects4]. simpl in *.
  by destruct (listen notifications' st4).
Qed.

Lemma listen_tracked notifications : ∀ st id,
  id ∈ lists_added (listen notifications st).1 →
  id ∈ lists_added st
  ∨ ∃ n, n ∈ notifications ∧ id ∈ new_lists (snapshot n).
Proof.
  induction notifications as [|n rest IH]; intros st id; simpl; [by left|].
  set (st1 := {| hass := host_activity n (hass st);
                 lists_added := lists_added st |}).
  pose proof (pass_lists_added_subset DOMAIN CONNECTION_NETWORK_MAC
                format_mac (snapshot n) st1) as Hpass.
  destruct (pass (snapshot n) st1) as [st2 effects].
  specialize (IH st2 id).
  destruct (listen rest st2) as [st3 effects3]. simpl in *.
  intros Hin. destruct (IH Hin) as [Hst2|(n' & Hn' & Hid)].
  - rewrite Hpass in Hst2. case_decide.
    + right. exists n. split; [left|done].
    + apply elem_of_union in Hst2 as [?|?]; [by left|].
      right. exists n. split; [left|done].
  - right. exists n'. split; [by right|done].
Qed.

Lemma listen_last notifications n st :
  new_lists (snapshot n)
  ⊆ lists_added (listen (notifications ++ [n]) st).1.
Proof.
  rewrite listen_app. simpl.
  set (st0 := (listen notifications st).1).
  set (st1 := {| hass := host_activity n (hass st0);
                 lists_added := lists_added st0 |}).
  pose proof (pass_lists_added_subset DOMAIN CONNECTION_NETWORK_MAC
                format_mac (snapshot n) st1) as Hpass.
  destruct (pass (snapshot n) st1) as [st2 effects]. simpl in *.
  rewrite Hpass. case_decide; [done|]. apply union_subseteq_r.
Qed.

Lemma setup_entry_tracked hass0 registry :
  lists_added (setup_entry hass0 registry).1 = new_lists registry.
Proof.
  unfold async_setup_entry. rewrite pass_lists_added_subset. simpl.
  case_decide; [done|]. apply union_empty_l_L.
Qed.

(** X10: over the platform's whole life, whatever the host does to its
    registry between passes, a device id is tracked only if it qualified
    at set-up or at some notification, and after the last notification
    every device qualifying then is tracked. *)
Theorem platform_run_tracked hass0 registry notifications n :
  let final := (whole_run hass0 registry (notifications ++ [n])).1 in
  (∀ id, id ∈ lists_added final →
     id ∈ new_lists registry
     ∨ ∃ n', n' ∈ notifications ++ [n] ∧ id ∈ new_lists (snapshot n'))
  ∧ new_lists (snapshot n) ⊆ lists_added final.
Proof.
  intros final.
  assert (Hfinal : final
            = (listen (notifications ++ [n]) (setup_entry hass0 registry).1).1).
  { unfold final, platform_run.
    destruct (setup_entry hass0 registry) as [st effects]. simpl.
    by destruct (listen (notifications ++ [n]) st). }
  rewrite Hfinal. split.
  - intros id Hin. apply listen_tracked in Hin as [Hin|Hin]; [|by right].
    left. by rewrite setup_entry_tracked in Hin.
  - apply listen_last.
Qed.

(** X11: when the last two notifications find the same qualifying set,
    the tracked set ends equal to it, whatever came before. *)
Theorem listen_settles notifications n1 n2 st :
  new_lists (snapshot n1) = new_lists (snapshot n2) →
  lists_added (listen (notifications ++ [n1; n2]) st).1
  = new_lists (snapshot n2).
Proof.
  intros Hsame.
  replace (notifications ++ [n1; n2]) with ((notifications ++ [n1]) ++ [n2])
    by (by rewrite <- app_assoc).
  pose proof (listen_last notifications n1 st) as Hlast.
  rewrite listen_app. simpl.
  set (st0 := (listen (notifications ++ [n1]) st).1) in *.
  set (st1 := {| hass := host_activity n2 (hass st0);
                 lists_added := lists_added st0 |}).
  pose proof (pass_lists_added_subset DOMAIN CONNECTION_NETWORK_MAC
                format_mac (snapshot n2) st1) as Hpass.
  destruct (pass (snapshot n2) st1) as [st2 effects]. simpl in *.
  rewrite Hpass. rewrite decide_True; [done|]. by rewrite <- Hsame.
Qed.

End Listening.

(** ** More about the classifier and the adapter *)

Section AdapterMore.
Import PyStr.

Variable DOMAIN : string.
Variable CONNECTION_NETWORK_MAC : string.
Variable format_mac : string → string.

Local Abbreviation pass :=
  (add_entities DOMAIN CONNECTION_NETWORK_MAC format_mac).
Local Abbreviation generate :=
  (entity_generator DOMAIN CONNECTION_NETWORK_MAC format_mac).
Local Abbreviation init :=
  (AidotSwitch__init__ DOMAIN CONNECTION_NETWORK_MAC format_mac).

(** X13: a type that mentions "light" or "bulb", in any case, is never a
    switch, whatever else it mentions, and its device never enters the
    qualifying set. *)
Theorem lights_never_qualify registry id device_type :
  device_types registry !! id = Some device_type →
  contains_ci device_type "light" ∨ contains_ci device_type "bulb" →
  _is_switch_device registry id = false ∧ id ∉ new_lists registry.
Proof.
  intros Htype Hlight.
  assert (Hfalse : _is_switch_device registry id = false).
  { unfold _is_switch_device. rewrite Htype. simpl.
    apply andb_false_iff. right. apply negb_false_iff, orb_true_iff.
    by rewrite !PyStrFacts.contains_lower_ci. }
  split; [done|]. rewrite elem_of_new_lists. intros [Htrue _]. congruence.
Qed.

Lemma split_head_prefix m rest :
  ¬ has_char "." m →
  hd "" (split "." (m +:+ String "." rest)) = m.
Proof.
  induction m as [|c m IH]; intros Hno; simpl.
  - done.
  - simpl in Hno. rewrite decide_False by tauto.
    assert (Hm : ¬ has_char "." m) by tauto. specialize (IH Hm).
    pose proof (PyStrFacts.split_nonempty "." (m +:+ String "." rest)) as Hne.
    destruct (split "." (m +:+ String "." rest)) as [|h t]; [done|].
    simpl in *. by rewrite IH.
Qed.

(** X14: a model identifier made of a dot-free prefix, a dot and any
    rest, further dots included, gives that prefix as the manufacturer
    and that rest as the model. *)
Theorem init_splits_at_first_dot hass device_coordinator m rest :
  ¬ has_char "." m →
  Info.model_id (info (device_client device_coordinator))
  = m +:+ "." +:+ rest →
  ∃ device_info,
    _attr_device_info (init hass device_coordinator) = Some device_info
    ∧ manufacturer device_info = m
    ∧ model device_info = rest.
Proof.
  intros Hno Hid. eexists. split; [reflexivity|]. simpl. rewrite Hid.
  change (m +:+ "." +:+ rest) with (m +:+ String "." rest).
  rewrite split_head_prefix by done. split; [done|].
  apply PyStrFacts.slice_from_after_sep.
Qed.

(** X15: a refresh reads nothing but the coordinator's data: the status
    pushed by the device client has no influence, and without a change
    of that data a second refresh, by either path, and the first refresh
    after construction change nothing. *)
Theorem refresh_reads_coordinator_data (self : AidotSwitch)
    (status status' : DeviceStatus) hass device_coordinator :
  _device_status_callback self status = _device_status_callback self status'
  ∧ _handle_coordinator_update (_handle_coordinator_update self).1
    = _handle_coordinator_update self
  ∧ _device_status_callback (_handle_coordinator_update self).1 status
    = _handle_coordinator_update self
  ∧ (_handle_coordinator_update (init hass device_coordinator)).1
    = init hass device_coordinator
  ∧ _attr_available (init hass device_coordinator)
    = online (data device_coordinator)
  ∧ _attr_is_on (init hass device_coordinator)
    = Some (on (data device_coordinator)).
Proof. repeat split. Qed.


(** X17: the state a command leaves does not depend on the state it
    found nor on the outcome of the call: of two commands the last one
    decides, and a repeated command changes nothing more. *)
Theorem last_command_decides (self : AidotSwitch)
    (client client' : ClientCall → Outcome) :
  (run client' async_turn_off (run client async_turn_on self).1).1
  = (run client' async_turn_off self).1
  ∧ (run client' async_turn_on (run client async_turn_off self).1).1
    = (run client' async_turn_on self).1
  ∧ (run client' async_turn_on (run client async_turn_on self).1).1
    = (run client async_turn_on self).1
  ∧ (run client' async_turn_off (run client async_turn_off self).1).1
    = (run client async_turn_off self).1.
Proof.
  unfold run. simpl.
  destruct (client ClientTurnOn), (client ClientTurnOff),
    (client' ClientTurnOn), (client' ClientTurnOff); repeat split.
Qed.

Lemma generate_unique_ids hass registry ids entities :
  client_ids_agree registry →
  generate hass registry ids = inr entities →
  _attr_unique_id <$> entities = adapter_ids entities.
Proof.
  intros Hagree. revert entities.
  induction ids as [|id rest IH]; intros entities; simpl.
  - by intros [= <-].
  - unfold getitem.
    destruct (device_coordinators registry !! id) as [dc|] eqn:Hdc; [|done].
    destruct (generate hass registry rest) as [e|others]; [done|].
    intros [= <-]. unfold adapter_ids in *. rewrite !fmap_cons.
    f_equal; [|by apply IH]. simpl. by apply (Hagree _ _ Hdc).
Qed.

(** X19: when every device coordinator is stored under its device id and
    every client reports that id as [info.dev_id] too, the adapters an
    addition hands over carry as unique ids exactly the qualifying ids,
    which are the ids the removal branch later looks entities up by. *)
Theorem add_branch_unique_ids registry st :
  keyed_by_device_id registry →
  client_ids_agree registry →
  new_lists registry ⊈ lists_added st →
  ∃ entities,
    (pass registry st).2 = [AddEntities (inr entities)]
    ∧ _attr_unique_id <$> entities = elements (new_lists registry).
Proof.
  intros Hkeyed Hagree Hadd. rewrite add_branch_effect by done. simpl.
  destruct (generate_keyed DOMAIN CONNECTION_NETWORK_MAC format_mac
              (hass st) registry (elements (new_lists registry)))
    as (entities & Hgen & Hids).
  { intros id Hin. apply elem_of_elements, elem_of_new_lists in Hin
      as (_ & key & dc & Hdc & Hid).
    exists dc. split; [|done].
    by rewrite <- Hid, (Hkeyed _ _ Hdc). }
  exists entities. rewrite Hgen. split; [done|].
  by rewrite (generate_unique_ids _ _ _ _ Hagree Hgen).
Qed.

End AdapterMore.

(** ** Instances of the further properties *)

Lemma add_branch_adapters_witness :
  keyed_by_device_id Sample.registry
  ∧ new_lists Sample.registry ⊈ lists_added (Sample.setup {["a"]})
  ∧ ∃ entities,
      (Sample.pass Sample.registry (Sample.setup {["a"]})).2
      = [AddEntities (inr entities)]
      ∧ adapter_ids entities = elements (new_lists Sample.registry)
      ∧ NoDup (adapter_ids entities)
      ∧ length entities = size (new_lists Sample.registry).
Proof.
  assert (Hkeyed : keyed_by_device_id Sample.registry)
    by (apply (bool_decide_unpack _); by vm_compute).
  assert (Hadd : new_lists Sample.registry
                 ⊈ lists_added (Sample.setup {["a"]}))
    by (apply (bool_decide_unpack _); by vm_compute).
  split; [exact Hkeyed|]. split; [exact Hadd|].
  exact (add_branch_adapters "aidot" "mac" id Sample.registry
           (Sample.setup {["a"]}) Hkeyed Hadd).
Defined.

Lemma add_branch_key_error_witness :
  new_lists Scenario.misfiled ⊈ lists_added (Sample.setup ∅)
  ∧ "b" ∈ new_lists Scenario.misfiled
  ∧ device_coordinators Scenario.misfiled !! "b" = None
  ∧ ∃ missing,
      (Sample.pass Scenario.misfiled (Sample.setup ∅)).2
      = [AddEntities (inl (KeyError missing))]
      ∧ missing ∈ new_lists Scenario.misfiled
      ∧ device_coordinators Scenario.misfiled !! missing = None
      ∧ new_lists Scenario.misfiled
        ⊆ lists_added (Sample.pass Scenario.misfiled (Sample.setup ∅)).1.
Proof.
  assert (Hadd : new_lists Scenario.misfiled ⊈ lists_added (Sample.setup ∅))
    by (apply (bool_decide_unpack _); by vm_compute).
  assert (Hin : "b" ∈ new_lists Scenario.misfiled)
    by (apply (bool_decide_unpack _); by vm_compute).
  assert (Hnone : device_coordinators Scenario.misfiled !! "b" = None)
    by (by vm_compute).
  split; [exact Hadd|]. split; [exact Hin|]. split; [exact Hnone|].
  exact (add_branch_key_error "aidot" "mac" id Scenario.misfiled
           (Sample.setup ∅) "b" Hadd Hin Hnone).
Defined.

Lemma pass_removals_distinct_witness :
  RegistryRemove "switch.z"
    ∈ (Sample.pass Sample.registry (Sample.setup {["a"; "b"; "z"]})).2
  ∧ is_Some (entity_registry (hass (Sample.setup {["a"; "b"; "z"]}))
               !! "switch.z")
  ∧ entity_registry
      (hass (Sample.pass Sample.registry
               (Sample.setup {["a"; "b"; "z"]})).1) !! "switch.z" = None.
Proof.
  assert (Hin : RegistryRemove "switch.z"
                ∈ (Sample.pass Sample.registry
                     (Sample.setup {["a"; "b"; "z"]})).2)
    by (vm_compute; left).
  split; [exact Hin|].
  exact (proj1 (proj2 (pass_removals_distinct "aidot" "mac" id
                         Sample.registry (Sample.setup {["a"; "b"; "z"]})))
           "switch.z" Hin).
Defined.

Lemma removal_branch_clears_registry_witness :
  let st := Sample.setup {["a"; "b"; "z"]} in
  registry_indexed (hass st)
  ∧ new_lists Sample.registry ∖ lists_added st = ∅
  ∧ lists_added st ∖ new_lists Sample.registry ≠ ∅
  ∧ ∀ device_id,
      device_id ∈ lists_added st ∖ new_lists Sample.registry →
      async_get_entity_id
        (er_async_get (hass (Sample.pass Sample.registry st).1))
        "switch" "aidot" device_id = None.
Proof.
  intros st.
  assert (Hwf : registry_indexed (hass st))
    by (apply (bool_decide_unpack _); by vm_compute).
  assert (Hnoadd : new_lists Sample.registry ∖ lists_added st = ∅)
    by (by vm_compute).
  assert (Hrem : lists_added st ∖ new_lists Sample.registry ≠ ∅)
    by (apply (bool_decide_unpack _); by vm_compute).
  split; [exact Hwf|]. split; [exact Hnoadd|]. split; [exact Hrem|].
  exact (proj1 (removal_branch_clears_registry "aidot" "mac" id
                  Sample.registry st Hwf Hnoadd Hrem)).
Defined.

Lemma setup_entry_first_pass_witness :
  new_lists Sample.registry ≠ ∅
  ∧ (async_setup_entry "aidot" "mac" id Sample.host Sample.registry).2
    = [AddEntities
         (entity_generator "aidot" "mac" id Sample.host Sample.registry
            (elements (new_lists Sample.registry)))].
Proof.
  assert (Hsome : new_lists Sample.registry ≠ ∅)
    by (apply (bool_decide_unpack _); by vm_compute).
  split; [exact Hsome|].
  exact (proj2 (proj2 (proj2 (setup_entry_first_pass "aidot" "mac" id
                                Sample.host Sample.registry))) Hsome).
Defined.

Lemma platform_run_tracked_witness :
  let final :=
    (platform_run "aidot" "mac" id Sample.host Sample.registry
       ([] ++ [Scenario.notified Scenario.shrunk])).1 in
  "b" ∈ lists_added final
  ∧ ("b" ∈ new_lists Sample.registry
     ∨ ∃ n, n ∈ [] ++ [Scenario.notified Scenario.shrunk]
            ∧ "b" ∈ new_lists (snapshot n)).
Proof.
  intros final.
  assert (Hin : "b" ∈ lists_added final)
    by (apply (bool_decide_unpack _); by vm_compute).
  split; [exact Hin|].
  exact (proj1 (platform_run_tracked "aidot" "mac" id Sample.host
                  Sample.registry [] (Scenario.notified Scenario.shrunk))
           "b" Hin).
Defined.

Lemma listen_settles_witness :
  new_lists (snapshot (Scenario.notified Scenario.misfiled))
  = new_lists (snapshot (Scenario.notified Sample.registry))
  ∧ lists_added
      (on_notifications "aidot" "mac" id
         ([Scenario.notified Scenario.shrunk]
          ++ [Scenario.notified Scenario.misfiled;
              Scenario.notified Sample.registry])
         (Sample.setup {["z"]})).1
    = new_lists (snapshot (Scenario.notified Sample.registry)).
Proof.
  assert (Hsame : new_lists (snapshot (Scenario.notified Scenario.misfiled))
                  = new_lists (snapshot (Scenario.notified Sample.registry)))
    by (by vm_compute).
  split; [exact Hsame|].
  exact (listen_settles "aidot" "mac" id [Scenario.notified Scenario.shrunk]
           (Scenario.notified Scenario.misfiled)
           (Scenario.notified Sample.registry)
           (Sample.setup {["z"]}) Hsame).
Defined.

Lemma lights_never_qualify_witness :
  device_types Sample.registry !! "c" = Some "RGB Light Strip"
  ∧ PyStr.contains_ci "RGB Light Strip" "light"
  ∧ _is_switch_device Sample.registry "c" = false
  ∧ "c" ∉ new_lists Sample.registry.
Proof.
  assert (Htype : device_types Sample.registry !! "c"
                  = Some "RGB Light Strip") by (by vm_compute).
  assert (Hlight : PyStr.contains_ci "RGB Light Strip" "light").
  { exists "RGB ", "Light", " Strip". split; [reflexivity|]. simpl.
    split; [right; left; split; reflexivity|].
    repeat split; left; reflexivity. }
  split; [exact Htype|]. split; [exact Hlight|].
  exact (lights_never_qualify Sample.registry "c" "RGB Light Strip"
           Htype (or_introl Hlight)).
Defined.

Lemma init_splits_at_first_dot_witness :
  ¬ PyStr.has_char "." "aidot"
  ∧ ∃ device_info,
      _attr_device_info
        (AidotSwitch__init__ "aidot" "mac" id Sample.host
           (Sample.device "a" "aidot.plug.v1" false)) = Some device_info
      ∧ manufacturer device_info = "aidot"
      ∧ model device_info = "plug.v1".
Proof.
  assert (Hno : ¬ PyStr.has_char "." "aidot")
    by (simpl; intros H; repeat destruct H as [H|H]; discriminate || done).
  split; [exact Hno|].
  exact (init_splits_at_first_dot "aidot" "mac" id Sample.host
           (Sample.device "a" "aidot.plug.v1" false) "aidot" "plug.v1"
           Hno eq_refl).
Defined.

Lemma add_branch_unique_ids_witness :
  keyed_by_device_id Sample.registry
  ∧ client_ids_agree Sample.registry
  ∧ new_lists Sample.registry ⊈ lists_added (Sample.setup {["a"]})
  ∧ ∃ entities,
      (Sample.pass Sample.registry (Sample.setup {["a"]})).2
      = [AddEntities (inr entities)]
      ∧ _attr_unique_id <$> entities = elements (new_lists Sample.registry).
Proof.
  assert (Hkeyed : keyed_by_device_id Sample.registry)
    by (apply (bool_decide_unpack _); by vm_compute).
  assert (Hagree : client_ids_agree Sample.registry)
    by (apply (bool_decide_unpack _); by vm_compute).
  assert (Hadd : new_lists Sample.registry
                 ⊈ lists_added (Sample.setup {["a"]}))
    by (apply (bool_decide_unpack _); by vm_compute).
  split; [exact Hkeyed|]. split; [exact Hagree|]. split; [exact Hadd|].
  exact (add_branch_unique_ids "aidot" "mac" id Sample.registry
           (Sample.setup {["a"]}) Hkeyed Hagree Hadd).
Defined.
